(** * Yeti command line client: a shallow embedding of [lib/cli.js]

    The file follows the source from top to bottom: the console helpers
    ([error], [panic], [puts]), the uncaught-exception reporter installed by
    [setupProcess], the batch closure of [submitBatch] with its event
    handlers, [runBatch] with [prepareTests], [createHub] and [connectToURL],
    [startServer] and [route].

    Modelling conventions.
    - JavaScript numbers are binary64; those that hold integers are values
      of [Z].  The counters that grow with the events ([passed], [failed],
      [currentIndex], [beats]) are added with [js_add], which rounds the
      exact sum to the nearest binary64 number as [+=] does.  Lengths and
      their product, the tally [passed + failed], ports, the spinner index
      and differences of clock readings are computed in [Z], which is the
      result of the code as long as they stay below 2^53.  The quotients and
      products of [updateProgress] are values of [number]: NaN, the two
      infinities, or the binary64 number nearest to the exact result
      ([round64]).  [toFixed] prints such a number digit for digit and an
      integer prints as its decimal digits, both below 10^21.  Negative zero
      is not told from zero.
    - A JavaScript object is the list of its enumerable properties in
      [for .. in] order (an array, the list of its indices); payloads arrive
      as JSON, so they hold no functions and no sharing.
    - The process is single threaded: every callback runs to completion, ends
      the process ([process.exit]) or throws.  Code runs in the monad [M]
      over the state [world]; the state records the variables of the closures
      and the chronological trace of everything the code does to the outside
      (stream writes, hub and client calls).
    - The modules [./color], [./package], [./hub], [./client], [nopt] and
      [readline] are not part of the file: the colour functions, the package
      descriptor, the clock and the interpreter version are parameters of the
      development, hub and client calls are recorded in the trace and their
      callbacks arrive as [event]s. *)

From Stdlib Require Import ZArith List String Ascii QArith Bool Lia Permutation.
From Stdlib Require Import DecimalString.
Import ListNotations.

#[local] Set Warnings "-register-all".
#[local] Open Scope string_scope.
#[local] Open Scope Z_scope.

(** ** JavaScript values *)

Inductive value : Type :=
| VUndef
| VNull
| VBool (b : bool)
| VNum (z : Z)
| VStr (s : string)
| VObj (fields : list (string * value)).

(** [o[k]] on an object: the first property of that name, else [undefined]. *)
Fixpoint lookup (k : string) (fields : list (string * value)) : value :=
  match fields with
  | [] => VUndef
  | (k', v) :: rest => if String.eqb k k' then v else lookup k rest
  end.

(** [k in o] on an object. *)
Fixpoint has_key (k : string) (fields : list (string * value)) : bool :=
  match fields with
  | [] => false
  | (k', _) :: rest => String.eqb k k' || has_key k rest
  end.

(** [typeof v === "object"]: objects and [null]. *)
Definition typeof_object (v : value) : bool :=
  match v with
  | VObj _ | VNull => true
  | _ => false
  end.

(** ToBoolean. *)
Definition truthy (v : value) : bool :=
  match v with
  | VUndef | VNull => false
  | VBool b => b
  | VNum z => negb (z =? 0)
  | VStr s => negb (String.eqb s "")
  | VObj _ => true
  end.

Definition string_of_Z (z : Z) : string := NilZero.string_of_int (Z.to_int z).

(** ToString on the values of the model. *)
Definition toStr (v : value) : string :=
  match v with
  | VUndef => "undefined"
  | VNull => "null"
  | VBool true => "true"
  | VBool false => "false"
  | VNum z => string_of_Z z
  | VStr s => s
  | VObj _ => "[object Object]"
  end.

(** Strict equality on primitive values.  Two objects are the same object
    exactly when they were read from the same place; the caller supplies that
    answer as [same_place]. *)
Definition strict_eq (same_place : bool) (a b : value) : bool :=
  match a, b with
  | VUndef, VUndef => true
  | VNull, VNull => true
  | VBool x, VBool y => Bool.eqb x y
  | VNum x, VNum y => x =? y
  | VStr x, VStr y => String.eqb x y
  | VObj _, VObj _ => same_place
  | _, _ => false
  end.

(** ** Strings *)

Definition LF : ascii := ascii_of_nat 10.
Definition CR : ascii := ascii_of_nat 13.
Definition ESC : ascii := ascii_of_nat 27.
Definition nl : string := String LF "".

(** [s.split("\n")]: never empty. *)
Fixpoint split_lines (s : string) : list string :=
  match s with
  | EmptyString => [""]
  | String c rest =>
      if Ascii.eqb c LF then "" :: split_lines rest
      else match split_lines rest with
           | h :: t => String c h :: t
           | [] => [String c ""]
           end
  end.

(** [a.join(sep)] on an array of strings. *)
Definition join (sep : string) (a : list string) : string := String.concat sep a.

(** ** Numbers *)

Inductive number : Type :=
| NaN
| Infinity (negative : bool)
| Finite (q : Q).

Definition of_Z (z : Z) : number := Finite (inject_Z z).

Definition q_is_zero (q : Q) : bool := Qnum q =? 0.
Definition q_is_neg (q : Q) : bool := Qnum q <? 0.

(** [floor (log2 (n / d))] for positive [n] and [d]. *)
Definition ilog2 (n d : Z) : Z :=
  let k := Z.log2 n - Z.log2 d in
  if (if 0 <=? k then d * 2 ^ k <=? n else d <=? n * 2 ^ (- k))
  then k else k - 1.

(** The integer nearest to [n / d], the even one of two. *)
Definition nearest_even (n d : Z) : Z :=
  let m := n / d in
  let r := n mod d in
  if 2 * r <? d then m
  else if d <? 2 * r then m + 1
  else if Z.even m then m else m + 1.

(** The binary64 number nearest to a rational, ties to even: 53 bits of
    precision, gradual underflow below [2^-1022], infinity from [2^1024]. *)
Definition round64 (q : Q) : number :=
  let n := Z.abs (Qnum q) in
  let d := Zpos (Qden q) in
  if n =? 0 then Finite 0
  else
    let e := Z.max (ilog2 n d - 52) (-1074) in
    let m := if 0 <=? e then nearest_even n (d * 2 ^ e)
             else nearest_even (n * 2 ^ (- e)) d in
    if 2 ^ 1024 <=? m * 2 ^ e then Infinity (q_is_neg q)
    else
      let s := Z.sgn (Qnum q) in
      Finite (Qred (if 0 <=? e then inject_Z (s * m * 2 ^ e)
                    else Qmake (s * m) (Z.to_pos (2 ^ (- e))))).

(** [a + b] on two integers that are binary64 numbers: the sum is exact up
    to [2^53] and rounded to 53 bits, ties to even, beyond; it stays below
    [2^1024]. *)
Definition js_add (a b : Z) : Z :=
  let n := a + b in
  let m := Z.abs n in
  if m <=? 2 ^ 53 then n
  else
    let e := Z.log2 m - 52 in
    Z.sgn n * (nearest_even m (2 ^ e) * 2 ^ e).

(** [x / y]. *)
Definition num_div (x y : number) : number :=
  match x, y with
  | NaN, _ | _, NaN => NaN
  | Infinity _, Infinity _ => NaN
  | Infinity s, Finite q => Infinity (xorb s (q_is_neg q))
  | Finite q, Infinity _ => Finite 0
  | Finite p, Finite q =>
      if q_is_zero q then
        if q_is_zero p then NaN else Infinity (q_is_neg p)
      else round64 (p / q)
  end.

(** [x * y]. *)
Definition num_mul (x y : number) : number :=
  match x, y with
  | NaN, _ | _, NaN => NaN
  | Infinity s, Infinity t => Infinity (xorb s t)
  | Infinity s, Finite q | Finite q, Infinity s =>
      if q_is_zero q then NaN else Infinity (xorb s (q_is_neg q))
  | Finite p, Finite q => round64 (p * q)
  end.

Fixpoint zeros (n : nat) : string :=
  match n with
  | O => ""
  | S n' => String "0" (zeros n')
  end.

(** The digits of [n / 10^d] with [d] decimals. *)
Definition decimal (n : Z) (d : nat) : string :=
  let digits := string_of_Z n in
  match d with
  | O => digits
  | _ =>
      let padded := zeros (S d - String.length digits) ++ digits in
      let cut := (String.length padded - d)%nat in
      substring 0 cut padded ++ "." ++ substring cut d padded
  end.

(** The integer nearest to a non-negative rational scaled by [10^d], the
    larger one of two. *)
Definition scaled_round (q : Q) (d : nat) : Z :=
  (2 * Qnum q * 10 ^ Z.of_nat d + Zpos (Qden q)) / (2 * Zpos (Qden q)).

(** [x.toFixed(d)]. *)
Definition toFixed (x : number) (d : nat) : string :=
  match x with
  | NaN => "NaN"
  | Infinity false => "Infinity"
  | Infinity true => "-Infinity"
  | Finite q =>
      if q_is_neg q then "-" ++ decimal (scaled_round (Qopp q) d) d
      else decimal (scaled_round q d) d
  end.

(** ** [util.format], as [console.error] and [console.log] apply it

    The first argument is always a string in this program.  With a single
    argument it is printed as it is; otherwise [%s] takes the next argument,
    [%%] prints a percent sign, and the arguments left over are appended,
    separated by spaces.  The other directives do not occur in the program. *)
Fixpoint format_scan (f : string) (args : list string) : string * list string :=
  match f with
  | EmptyString => ("", args)
  | String c rest =>
      match rest with
      | String c' rest' =>
          if Ascii.eqb c "%" && Ascii.eqb c' "%" then
            let (s, r) := format_scan rest' args in (String "%" s, r)
          else if Ascii.eqb c "%" && Ascii.eqb c' "s" then
            match args with
            | a :: args' => let (s, r) := format_scan rest' args' in (a ++ s, r)
            | [] => let (s, r) := format_scan rest args in (String c s, r)
            end
          else let (s, r) := format_scan rest args in (String c s, r)
      | EmptyString => (String c "", args)
      end
  end.

Definition format (args : list string) : string :=
  match args with
  | [] => ""
  | [f] => f
  | f :: rest => let (s, r) := format_scan f rest in join " " (s :: r)
  end.

(** ** Exceptions, effects and the state of a run *)

(** An [Error] object, as far as the program looks at it. *)
Record jsError : Type := mkError {
  e_name : string;
  e_message : string;
  e_code : string;
  e_stack : string
}.

(** What a [throw] can carry here: a string or an [Error]. *)
Inductive exn : Type :=
| ThrowString (s : string)
| ThrowError (e : jsError).

(** [Error.prototype.toString]. *)
Definition error_toString (e : jsError) : string :=
  if String.eqb (e_name e) "" then e_message e
  else if String.eqb (e_message e) "" then e_name e
  else e_name e ++ ": " ++ e_message e.

(** [err.stack] as a value. *)
Definition stack_of (err : exn) : value :=
  match err with
  | ThrowString _ => VUndef
  | ThrowError e => VStr (e_stack e)
  end.

(** [if (err)] on the first argument of a callback. *)
Definition err_given (err : option exn) : option exn :=
  match err with
  | Some (ThrowString s) => if String.eqb s "" then None else err
  | _ => err
  end.

(** Everything the program does to the outside, in the order it happens. *)
Inductive effect : Type :=
| ConsoleError (text : string)   (* [console.error]: the text and a line feed *)
| ConsoleLog (text : string)     (* [console.log] *)
| StderrWrite (chunk : string)   (* [process.stderr.write] *)
| HubListen (port : Z)
| CreateClient (url : string)
| ClientConnect (url : string)
| GetAgents
| CreateBatch (basedir : string) (tests : list string)
| Question (prompt : string)
| CloseInput.

(** Where [runBatch] stands: which callback it is waiting for. *)
Inductive phase : Type :=
| Idle
| ConnectingToURL
| ConnectingToLocalHub
| Preparing
| WaitingForEnter
| Testing
| Serving.

Record batchDetailsT : Type := mkDetails {
  passed : Z;
  failed : Z;
  currentIndex : Z;
  total : Z
}.

Record world : Type := mkWorld {
  trace : list effect;
  ticks : nat;                   (* clock readings taken so far *)
  url : string;                  (* [url] of [runBatch] *)
  stage : phase;
  hubErrorListener : bool;       (* [hub.once("error", ...)] still armed *)
  clientListeners : bool;        (* [agentConnect]/[agentDisconnect] logged *)
  timeStart : Z;                 (* the variables of [submitBatch] *)
  beats : Z;
  spinIndex : Z;
  batchDetails : batchDetailsT
}.

Definition initial_world : world :=
  mkWorld [] 0 "" Idle false false 0 0 0 (mkDetails 0 0 0 0).

Definition emit (e : effect) (w : world) : world :=
  mkWorld (trace w ++ [e]) (ticks w) (url w) (stage w) (hubErrorListener w)
          (clientListeners w) (timeStart w) (beats w) (spinIndex w) (batchDetails w).

Definition tick (w : world) : world :=
  mkWorld (trace w) (S (ticks w)) (url w) (stage w) (hubErrorListener w)
          (clientListeners w) (timeStart w) (beats w) (spinIndex w) (batchDetails w).

Definition set_url (u : string) (w : world) : world :=
  mkWorld (trace w) (ticks w) u (stage w) (hubErrorListener w)
          (clientListeners w) (timeStart w) (beats w) (spinIndex w) (batchDetails w).

Definition set_stage (p : phase) (w : world) : world :=
  mkWorld (trace w) (ticks w) (url w) p (hubErrorListener w)
          (clientListeners w) (timeStart w) (beats w) (spinIndex w) (batchDetails w).

Definition set_hubErrorListener (b : bool) (w : world) : world :=
  mkWorld (trace w) (ticks w) (url w) (stage w) b
          (clientListeners w) (timeStart w) (beats w) (spinIndex w) (batchDetails w).

Definition set_clientListeners (b : bool) (w : world) : world :=
  mkWorld (trace w) (ticks w) (url w) (stage w) (hubErrorListener w)
          b (timeStart w) (beats w) (spinIndex w) (batchDetails w).

Definition set_batch (t b s : Z) (d : batchDetailsT) (w : world) : world :=
  mkWorld (trace w) (ticks w) (url w) (stage w) (hubErrorListener w)
          (clientListeners w) t b s d.

Definition set_beats (b : Z) (w : world) : world :=
  set_batch (timeStart w) b (spinIndex w) (batchDetails w) w.

Definition set_spinIndex (s : Z) (w : world) : world :=
  set_batch (timeStart w) (beats w) s (batchDetails w) w.

Definition set_batchDetails (d : batchDetailsT) (w : world) : world :=
  set_batch (timeStart w) (beats w) (spinIndex w) d w.

(** The text written to the error stream, chunk by chunk. *)
Fixpoint stderr_of (t : list effect) : list string :=
  match t with
  | [] => []
  | ConsoleError s :: rest => (s ++ nl) :: stderr_of rest
  | StderrWrite s :: rest => s :: stderr_of rest
  | _ :: rest => stderr_of rest
  end.

(** ** The monad of callbacks *)

Inductive outcome (A : Type) : Type :=
| Ret (a : A) (w : world)          (* ran to its end *)
| Thrown (e : exn) (w : world)     (* an exception left the callback *)
| Exited (code : Z) (w : world).   (* [process.exit(code)] *)

Arguments Ret {A} a w.
Arguments Thrown {A} e w.
Arguments Exited {A} code w.

Definition M (A : Type) : Type := world -> outcome A.

Definition ret {A} (a : A) : M A := fun w => Ret a w.

Definition bind {A B} (m : M A) (k : A -> M B) : M B :=
  fun w =>
    match m w with
    | Ret a w' => k a w'
    | Thrown e w' => Thrown e w'
    | Exited c w' => Exited c w'
    end.

Definition throw {A} (e : exn) : M A := fun w => Thrown e w.
Definition process_exit {A} (code : Z) : M A := fun w => Exited code w.
Definition get : M world := fun w => Ret w w.
Definition modify (f : world -> world) : M unit := fun w => Ret tt (f w).
Definition perform (e : effect) : M unit := modify (emit e).

Notation "x <- m ;; k" := (bind m (fun x => k))
  (at level 61, m at next level, right associativity).
Notation "m ;; k" := (bind m (fun _ => k))
  (at level 61, right associativity).

Definition world_of {A} (o : outcome A) : world :=
  match o with
  | Ret _ w | Thrown _ w | Exited _ w => w
  end.

(** [for (x in xs) body], threading the local variables [s] of the loop. *)
Section ForEach.
Context {A S : Type} (body : A -> S -> M S).

Fixpoint for_each (xs : list A) (s : S) : M S :=
  match xs with
  | [] => ret s
  | x :: rest => s' <- body x s ;; for_each rest s'
  end.
End ForEach.

(** [process.stderr.write]. *)
Definition stderr_write (chunk : string) : M unit := perform (StderrWrite chunk).

(** [error(...)]: lines 17-20. *)
Definition error (args : list string) : M unit :=
  perform (ConsoleError (format args)).

(** [panic(...)]: lines 22-26. *)
Definition panic {A} (args : list string) : M A :=
  error args ;; process_exit 1.

(** [puts(...)]: lines 28-31. *)
Definition puts (args : list string) : M unit :=
  perform (ConsoleLog (format args)).

Definition good : string := "✔".
Definition bad : string := "✖".

(** ** What the program takes from its surroundings *)

(** The parsed command line, as [nopt] returns it ([parseArgv], lines 62-81),
    together with [argv[1]]. *)
Record Options : Type := mkOptions {
  argv1 : string;
  remain : list string;          (* [options.argv.remain] *)
  original : list string;        (* [options.argv.original] *)
  server : bool;
  version : bool;
  help : bool;
  port : option Z;
  hub : option string;
  loglevel : option string;
  debug : bool
}.

Record Env : Type := mkEnv {
  red : string -> string;        (* [color.red], [color.green], [color.bold],
                                    on the string conversion of their argument *)
  green : string -> string;
  bold : string -> string;
  meta_version : string;         (* [meta.version], [meta.bugs.url] *)
  meta_bugs_url : string;
  process_version : string;
  process_cwd : string;
  isTTY : bool;                  (* [process.stderr.isTTY], line 15 *)
  clock : nat -> Z;              (* the n-th reading of [new Date()], in ms *)
  TypeError : string -> jsError; (* the error the runtime raises at an expression *)
  RangeError : jsError;          (* "Maximum call stack size exceeded" *)
  options : Options
}.

(** The payload of [agentResult]: the two counters and the other properties
    of the result object (its name, its suites).  Where the two numbers
    stand among the properties makes no difference to [for .. in] below,
    which skips everything that is not an object. *)
Record agentDetails : Type := mkAgentDetails {
  d_passed : Z;
  d_failed : Z;
  d_rest : list (string * value)
}.

Definition details_object (d : agentDetails) : list (string * value) :=
  ("passed", VNum (d_passed d)) :: ("failed", VNum (d_failed d)) :: d_rest d.

(** The payload of [agentScriptError]. *)
Record scriptError : Type := mkScriptError {
  se_message : value;
  se_url : value;
  se_line : value
}.

Inductive batchEvent : Type :=
| AgentResult (agent : string) (details : agentDetails)
| AgentScriptError (agent : string) (details : scriptError)
| AgentError (agent : string) (message : value)
| AgentComplete (agent : string)
| AgentProgress (agent : string)
| AgentBeat (agent : string)
| Dispatch (agents : list string)
| Complete.

Section Cli.
Variable E : Env.

(** [new Date()] as a number. *)
Definition now : M Z :=
  fun w => Ret (clock E (ticks w)) (tick w).

(** [v.p] for a property that no primitive has. *)
Definition get_prop (v : value) (p : string) : M value :=
  match v with
  | VUndef | VNull => throw (ThrowError (TypeError E p))
  | VObj fields => ret (lookup p fields)
  | _ => ret VUndef
  end.

(** *** [setupProcess], lines 33-60: the uncaught-exception listener *)
Definition uncaughtException (err : exn) : M unit :=
  let err :=
    match err with
    | ThrowString s => s
    | ThrowError e =>
        if String.eqb (e_stack e) "" then error_toString e else e_stack e
    end in
  let message :=
    if isTTY E then
      [ red E (bad ++ " Whoops!") ++ " " ++ err; "";
        "If you believe this is a bug in Yeti, please report it.";
        "    " ++ bold E (meta_bugs_url E);
        "    Yeti v" ++ meta_version E;
        "    Node.js " ++ process_version E ]
    else
      [ "Yeti v" ++ meta_version E ++ " " ++
          "(Node.js " ++ process_version E ++
          ") Error: " ++ err;
        "Report this bug at " ++ meta_bugs_url E ] in
  panic [join nl message].

(** *** [submitBatch], lines 83-240 *)

(** The local variable [lastSuite] of [displayVerboseResult], together with
    the key of the suite it was read from. *)
Definition lastSuiteT : Type := string * value.

(** [reportTestError], lines 101-115.  [k] and [suite] are the closure
    variables of the main loop. *)
Definition reportTestError (k : string) (suite : value) (test : value)
           (lastSuite : lastSuiteT) : M lastSuiteT :=
  result <- get_prop test "result" ;;
  if strict_eq false (VStr "fail") result then
    suite_name <- get_prop suite "name" ;;
    lastSuite' <-
      (if negb (truthy (snd lastSuite))
          || negb (strict_eq (String.eqb (fst lastSuite) k)
                             (snd lastSuite) suite_name)
       then error ["   in"; bold E (toStr suite_name)] ;;
            ret (k, suite_name)
       else ret lastSuite) ;;
    message <- get_prop test "message" ;;
    match message with
    | VStr m =>
        let msg := split_lines m in
        name <- get_prop test "name" ;;
        error ["    "; bold E (red E (toStr name)) ++ ":"; hd "" msg] ;;
        for_each (fun line (_ : unit) => error ["       " ++ line]) (tl msg) tt ;;
        ret lastSuite'
    | _ => throw (ThrowError (TypeError E "split"))
    end
  else ret lastSuite.

(** [hasResults], lines 116-118: it looks at the variable [test] of
    [displayVerboseResult], not at its argument. *)
Definition hasResults (test : value) (o : value) : M bool :=
  match test with
  | VObj fields =>
      ret (has_key "passed" fields && has_key "failed" fields
           && has_key "type" fields)
  | _ => throw (ThrowError (TypeError E "in"))
  end.

(** The characters of a string as one-character strings: what [for .. in]
    and indexing give on a string. *)
Fixpoint chars (s : string) : list value :=
  match s with
  | EmptyString => []
  | String c rest => VStr (String c "") :: chars rest
  end.

(** [walk], lines 119-128.  On a string, [o[i]] is a one-character string;
    walking such a string walks it again without end when [hasResults]
    answers no, which the runtime ends with a [RangeError].  Other
    primitives, [null] and [undefined] have nothing to enumerate. *)
Fixpoint walk (k : string) (suite test : value) (o : value)
         (lastSuite : lastSuiteT) {struct o} : M lastSuiteT :=
  match o with
  | VObj fields =>
      for_each
        (fun (entry : string * value) lastSuite =>
           let (_, oi) := entry in
           b <- hasResults test oi ;;
           if b then reportTestError k suite oi lastSuite
           else walk k suite test oi lastSuite)
        fields lastSuite
  | VStr s =>
      for_each
        (fun oi lastSuite =>
           b <- hasResults test oi ;;
           if b then reportTestError k suite oi lastSuite
           else throw (ThrowError (RangeError E)))
        (chars s) lastSuite
  | _ => ret lastSuite
  end.

(** The body of [for (k1 in suite)], lines 136-143. *)
Definition visit_test (k : string) (suite : value) (entry : string * value)
           (lastSuite : lastSuiteT) : M lastSuiteT :=
  let (_, test) := entry in
  if typeof_object test then
    b <- hasResults test test ;;
    if b then walk k suite test test lastSuite
    else reportTestError k suite test lastSuite
  else ret lastSuite.

(** The body of [for (k in result)], lines 132-146. *)
Definition visit_suite (entry : string * value) (lastSuite : lastSuiteT)
  : M lastSuiteT :=
  let (k, suite) := entry in
  if typeof_object suite then
    suite_failed <- get_prop suite "failed" ;;
    if truthy suite_failed then
      match suite with
      | VObj fields => for_each (visit_test k suite) fields lastSuite
      | _ => ret lastSuite
      end
    else ret lastSuite
  else ret lastSuite.

(** [displayVerboseResult], lines 98-149. *)
Definition displayVerboseResult (result : list (string * value)) : M unit :=
  for_each visit_suite result ("", VUndef) ;;
  error [""].

(** [spin], line 157, and [spin[i]]. *)
Definition spin : list string := ["/"; "|"; "\"; "-"].

Definition array_get (a : list string) (i : Z) : string :=
  if (0 <=? i) && (i <? Z.of_nat (List.length a))
  then nth (Z.to_nat i) a "undefined"
  else "undefined".

(** [percent] and [tps] of [updateProgress], lines 155-156. *)
Definition percent_of (current total : Z) : number :=
  num_mul (num_div (of_Z current) (of_Z total)) (of_Z 100).

Definition tps_of (beats time timeStart : Z) : number :=
  num_div (num_mul (of_Z beats) (of_Z 1000)) (of_Z (time - timeStart)).

Definition erase_line : string := String CR (String ESC "[2K").

Definition progress_line (spinIndex current total : Z) (tps : number) : string :=
  "Testing... " ++
  array_get spin spinIndex ++
  " " ++ toFixed (percent_of current total) 0 ++
  "% complete (" ++ string_of_Z current ++ "/" ++
  string_of_Z total ++ ") " ++
  toFixed tps 2 ++ " tests/sec ".

(** [updateProgress], lines 151-173. *)
Definition updateProgress : M unit :=
  w <- get ;;
  let current := currentIndex (batchDetails w) in
  let total := total (batchDetails w) in
  time <- now ;;
  let tps := tps_of (beats w) time (timeStart w) in
  let spins := Z.of_nat (List.length spin) - 1 in
  stderr_write erase_line ;;
  stderr_write (progress_line (spinIndex w) current total tps) ;;
  modify (set_spinIndex (spinIndex w + 1)) ;;
  w <- get ;;
  if spinIndex w >? spins then modify (set_spinIndex 0) else ret tt.

(** The [agentResult] listener, lines 175-190. *)
Definition on_agentResult (agent : string) (details : agentDetails) : M unit :=
  let failing := negb (d_failed details =? 0) in
  let icon := if failing then bad else good in
  let iconColor := if failing then red E else green E in
  modify (fun w =>
    let d := batchDetails w in
    set_batchDetails
      (mkDetails (passed d) (failed d) (js_add (currentIndex d) 1) (total d))
      w) ;;
  modify (fun w =>
    let d := batchDetails w in
    set_batchDetails
      (mkDetails (js_add (passed d) (d_passed details)) (failed d)
                 (currentIndex d) (total d)) w) ;;
  modify (fun w =>
    let d := batchDetails w in
    set_batchDetails
      (mkDetails (passed d) (js_add (failed d) (d_failed details))
                 (currentIndex d) (total d)) w) ;;
  if failing then
    error [iconColor icon;
           bold E (toStr (lookup "name" (details_object details)));
           "on"; agent] ;;
    displayVerboseResult (details_object details)
  else ret tt.

(** The [agentScriptError] listener, lines 192-197. *)
Definition on_agentScriptError (agent : string) (details : scriptError) : M unit :=
  error [red E (bad ++ " Script error") ++ ": " ++ toStr (se_message details)] ;;
  error ["  URL: " ++ toStr (se_url details)] ;;
  error ["  Line: " ++ toStr (se_line details)] ;;
  error ["  User-Agent: " ++ agent].

(** The [agentError] listener, lines 199-202. *)
Definition on_agentError (agent : string) (message : value) : M unit :=
  error [red E (bad ++ " Error") ++ ": " ++ toStr message] ;;
  error ["  User-Agent: " ++ agent].

(** The [agentComplete] listener, lines 204-206. *)
Definition on_agentComplete (agent : string) : M unit :=
  error [good; "Agent completed:"; agent].

(** The [agentProgress] listener, lines 208-210. *)
Definition on_agentProgress (agent : string) : M unit :=
  updateProgress.

(** The [agentBeat] listener, lines 212-215. *)
Definition on_agentBeat (agent : string) : M unit :=
  modify (fun w => set_beats (js_add (beats w) 1) w) ;;
  updateProgress.

(** The [dispatch] listener, lines 217-223. *)
Definition on_dispatch (agents : list string) : M unit :=
  (if (List.length agents =? 0)%nat
   then panic [bad; "No browsers connected, exiting."]
   else ret tt) ;;
  error [good; "Testing started on"; join ", " agents] ;;
  modify (fun w =>
    let d := batchDetails w in
    set_batchDetails
      (mkDetails (passed d) (failed d) (currentIndex d)
                 (total d * Z.of_nat (List.length agents))) w).

(** The [complete] listener, lines 225-239. *)
Definition on_complete : M unit :=
  updateProgress ;;
  time <- now ;;
  w <- get ;;
  let d := batchDetails w in
  let duration := time - timeStart w in
  let tally := passed d + failed d in
  let durationString := "(" ++ string_of_Z duration ++ "ms)" in
  if negb (failed d =? 0) then
    error [red E "Failures" ++ ":"; string_of_Z (failed d);
           "of"; string_of_Z tally; "tests failed."; durationString] ;;
    process_exit 1
  else
    error [green E (string_of_Z tally ++ " tests passed!"); durationString] ;;
    process_exit 0.

(** The listeners registered on the batch, by event name. *)
Definition batch_listener (ev : batchEvent) : M unit :=
  match ev with
  | AgentResult agent details => on_agentResult agent details
  | AgentScriptError agent details => on_agentScriptError agent details
  | AgentError agent message => on_agentError agent message
  | AgentComplete agent => on_agentComplete agent
  | AgentProgress agent => on_agentProgress agent
  | AgentBeat agent => on_agentBeat agent
  | Dispatch agents => on_dispatch agents
  | Complete => on_complete
  end.

(** [submitBatch], lines 83-96; the listeners above are registered by
    entering the stage [Testing]. *)
Definition submitBatch (tests : list string) : M unit :=
  perform (CreateBatch (process_cwd E) tests) ;;
  timeStart <- now ;;
  modify (set_batch timeStart 0 0 (mkDetails 0 0 0 (Z.of_nat (List.length tests)))) ;;
  modify (set_stage Testing).

(** *** [runBatch], lines 242-343 *)

(** [options.port || 9000], lines 244 and 346. *)
Definition port_of (o : Options) : Z :=
  match port o with
  | Some p => if p =? 0 then 9000 else p
  | None => 9000
  end.

(** [options.hub] when it is a non-empty string. *)
Definition hub_given (o : Options) : option string :=
  match hub o with
  | Some u => if String.eqb u "" then None else Some u
  | None => None
  end.

Definition files : list string := remain (options E).

(** [prepareTests], lines 248-293: the call itself. *)
Definition prepareTests : M unit :=
  perform GetAgents ;;
  modify (set_stage Preparing) ;;
  modify (set_clientListeners true).

(** The listeners of [agentConnect] and [agentDisconnect], lines 286-292. *)
Definition on_agentConnect (agent : string) : M unit :=
  error ["  Agent connected:"; agent].

Definition on_agentDisconnect (agent : string) : M unit :=
  error ["  Agent disconnected:"; agent].

Definition question : string :=
  "When ready, press Enter to begin testing." ++ nl.

(** The callback of [client.getAgents], lines 253-284. *)
Definition getAgents_callback (err : option exn) (agents : list string) : M unit :=
  match err_given err with
  | Some e => throw e
  | None =>
      for_each (fun agent (_ : unit) => on_agentConnect agent) agents tt ;;
      if (0 <? List.length agents)%nat then submitBatch files
      else
        (if negb (isTTY E)
         then throw (ThrowString
                "Unable to connect to Hub or start an interactive session.")
         else ret tt) ;;
        w <- get ;;
        error ["Waiting for agents to connect at " ++ url w ++ "."] ;;
        perform (Question question) ;;
        modify (set_stage WaitingForEnter)
  end.

(** The callback of [rl.question], lines 278-282. *)
Definition question_callback : M unit :=
  perform CloseInput ;;
  submitBatch files.

(** [createHub], lines 295-320. *)
Definition createHub : M unit :=
  modify (set_url ("http://localhost:" ++ string_of_Z (port_of (options E)))) ;;
  w <- get ;;
  error ["Creating a Hub at " ++ url w] ;;
  perform (HubListen (port_of (options E))) ;;
  modify (set_hubErrorListener true) ;;
  perform (CreateClient (url w)) ;;
  perform (ClientConnect (url w)) ;;
  modify (set_stage ConnectingToLocalHub).

(** The listener [createHub] puts on the hub's [error], lines 307-309. *)
Definition createHub_on_error (err : exn) : M unit :=
  throw err.

(** The callback of [client.connect] in [createHub], lines 313-319. *)
Definition createHub_connected (err : option exn) : M unit :=
  match err_given err with
  | Some e => throw e
  | None => prepareTests
  end.

(** [connectToURL], lines 322-336. *)
Definition connectToURL (url : string) : M unit :=
  perform (CreateClient url) ;;
  perform (ClientConnect url) ;;
  modify (set_stage ConnectingToURL).

(** The callback of [client.connect] in [connectToURL], lines 324-335;
    [url] is the argument of [connectToURL]. *)
Definition connectToURL_connected (url : string) (err : option exn) : M unit :=
  match err_given err with
  | Some e =>
      (match hub_given (options E) with
       | Some _ => error ["Unable to connect to Hub at"; url;
                          "with"; toStr (stack_of e)]
       | None => ret tt
       end) ;;
      createHub
  | None =>
      error ["Connected to " ++ url] ;;
      prepareTests
  end.

(** The body of [runBatch], lines 338-342. *)
Definition runBatch : M unit :=
  let url := match hub_given (options E) with
             | Some u => u
             | None => "http://localhost:9000"
             end in
  modify (set_url url) ;;
  connectToURL url.

(** *** [startServer], lines 345-362 *)
Definition startServer : M unit :=
  modify (set_hubErrorListener true) ;;
  perform (HubListen (port_of (options E))) ;;
  modify (set_stage Serving).

(** [err.code === "EADDRINUSE"]. *)
Definition is_EADDRINUSE (err : exn) : bool :=
  match err with
  | ThrowError e => String.eqb (e_code e) "EADDRINUSE"
  | ThrowString _ => false
  end.

(** The listener [startServer] puts on the hub's [error], lines 351-357. *)
Definition startServer_on_error (err : exn) : M unit :=
  if is_EADDRINUSE err then
    panic ["Unable to start the Hub because port %s is in use.";
           string_of_Z (port_of (options E))]
  else throw err.

(** The callback of [hub.listen], lines 359-361. *)
Definition startServer_listening : M unit :=
  error ["Yeti Hub listening on port %s."; string_of_Z (port_of (options E))].

(** *** [exports.route], lines 364-391 *)
Definition usage : string :=
  "usage: " ++ argv1 (options E) ++
  " [--version | -v] [--server | -s] [--port=<n>]" ++
  " [--hub=<url>]" ++
  " [--help] [--] [<HTML files>]".

Definition route : M unit :=
  let o := options E in
  if negb (List.length (remain o) =? 0)%nat then
    (if server o then error ["Ignoring --server option."] else ret tt) ;;
    runBatch
  else if server o then startServer
  else if version o
          || match original o with
             | first :: _ => String.eqb first "-v"
             | [] => false
             end
  then puts [meta_version E]
  else if help o then puts [usage]
  else panic [usage ++ nl ++
              "No files specified. " ++
              "To launch the Yeti server, specify --server."].

(** ** The process: callbacks delivered one at a time *)

(** What the hub, the client, the terminal and the batch call back with. *)
Inductive event : Type :=
| Connected (err : option exn)                      (* [client.connect] *)
| HubError (err : exn)                              (* the hub's [error] *)
| HubListening                                      (* [hub.listen] *)
| Agents (err : option exn) (agents : list string)  (* [client.getAgents] *)
| AgentConnect (agent : string)
| AgentDisconnect (agent : string)
| Enter                                             (* the line [rl.question] asks for *)
| Batch (ev : batchEvent).

(** The callback registered for an event in the current state; an event
    nobody listens to runs nothing. *)
Definition listener (ev : event) : M unit :=
  w <- get ;;
  match ev, stage w with
  | Connected err, ConnectingToURL => connectToURL_connected (url w) err
  | Connected err, ConnectingToLocalHub => createHub_connected err
  | HubError err, Serving =>
      if hubErrorListener w
      then modify (set_hubErrorListener false) ;; startServer_on_error err
      else ret tt
  | HubError err, _ =>
      if hubErrorListener w
      then modify (set_hubErrorListener false) ;; createHub_on_error err
      else ret tt
  | HubListening, Serving => startServer_listening
  | Agents err agents, Preparing => getAgents_callback err agents
  | AgentConnect agent, _ =>
      if clientListeners w then on_agentConnect agent else ret tt
  | AgentDisconnect agent, _ =>
      if clientListeners w then on_agentDisconnect agent else ret tt
  | Enter, WaitingForEnter => question_callback
  | Batch ev, Testing => batch_listener ev
  | _, _ => ret tt
  end.

Inductive process : Type :=
| Running (w : world)
| Terminated (code : Z) (w : world).

Definition state_of (p : process) : world :=
  match p with
  | Running w | Terminated _ w => w
  end.

Definition exit_status (p : process) : option Z :=
  match p with
  | Running _ => None
  | Terminated code _ => Some code
  end.

(** One turn of the event loop.  An exception that leaves the callback
    reaches the listener of [setupProcess], which [route] installs before
    anything else; that listener ends in [panic].  (A failure inside that
    listener would end the process with the runtime's own status 7.) *)
Definition run_callback (m : M unit) (w : world) : process :=
  match m w with
  | Ret _ w' => Running w'
  | Exited code w' => Terminated code w'
  | Thrown e w' =>
      match uncaughtException e w' with
      | Ret _ w'' => Running w''
      | Exited code w'' => Terminated code w''
      | Thrown _ w'' => Terminated 7 w''
      end
  end.

Definition deliver (p : process) (ev : event) : process :=
  match p with
  | Running w => run_callback (listener ev) w
  | Terminated _ _ => p
  end.

Definition run (evs : list event) (p : process) : process :=
  fold_left deliver evs p.

(** The program: [route] and then the events. *)
Definition start : process := run_callback route initial_world.

(** The batch listeners applied one after the other to the variables of
    [submitBatch], whatever the outcome of each. *)
Definition apply_listeners (evs : list batchEvent) (w : world) : world :=
  fold_left (fun w ev => world_of (batch_listener ev w)) evs w.
End Cli.

(** ** A concrete environment for the examples *)

Definition ansi (code : string) (s : string) : string :=
  String ESC ("[" ++ code ++ "m") ++ s ++ String ESC "[0m".

Definition sample_options (files : list string) : Options :=
  mkOptions "yeti" files files false false false None None None false.

(** A clock that advances by 250 ms at every reading. *)
Definition sample_clock (n : nat) : Z := 1000 + 250 * Z.of_nat n.

Definition sample_env (tty : bool) (o : Options) : Env :=
  mkEnv (ansi "31") (ansi "32") (ansi "1")
        "0.2.0" "http://yuilibrary.com/projects/yeti/newticket"
        "v0.6.0" "/home/yeti" tty sample_clock
        (fun what => mkError "TypeError" ("Cannot read property " ++ what) ""
                             ("TypeError: Cannot read property " ++ what))
        (mkError "RangeError" "Maximum call stack size exceeded" ""
                 "RangeError: Maximum call stack size exceeded")
        o.



(** * Definitions used to state the properties *)

(** [log t w]: the state [w] once the effects [t] have happened. *)
Definition log (t : list effect) (w : world) : world :=
  mkWorld (trace w ++ t) (ticks w) (url w) (stage w) (hubErrorListener w)
          (clientListeners w) (timeStart w) (beats w) (spinIndex w) (batchDetails w).

(** A computation that only produces output: it leaves every variable of the
    closures as it found it, whatever its outcome. *)
Definition prints {A} (m : M A) : Prop :=
  forall w, exists t, world_of (m w) = log t w.

(** The part of [agentResult] that touches the counters. *)
Definition count_result (d : agentDetails) (w : world) : world :=
  set_batchDetails
    (mkDetails (js_add (passed (batchDetails w)) (d_passed d))
               (js_add (failed (batchDetails w)) (d_failed d))
               (js_add (currentIndex (batchDetails w)) 1)
               (total (batchDetails w))) w.

(** [spinIndex] after one turn of [updateProgress], lines 169-172. *)
Definition next_spinIndex (i : Z) : Z := if i + 1 >? 3 then 0 else i + 1.

(** The two writes of one turn of [updateProgress] in the state [w]. *)
Definition progress_writes (E : Env) (w : world) : list effect :=
  [StderrWrite erase_line;
   StderrWrite (progress_line (spinIndex w) (currentIndex (batchDetails w))
                  (total (batchDetails w))
                  (tps_of (beats w) (clock E (ticks w)) (timeStart w)))].

(** A sequence of results, agent by agent, as [agentResult] events. *)
Definition agentResults (rs : list (string * agentDetails)) : list batchEvent :=
  map (fun r => AgentResult (fst r) (snd r)) rs.

(** The sum of one of the two counts over a sequence of results. *)
Definition sum_of (f : agentDetails -> Z) (rs : list (string * agentDetails)) : Z :=
  fold_right (fun r acc => f (snd r) + acc) 0 rs.

(** Every count of a sequence of results is non-negative. *)
Definition non_negative (rs : list (string * agentDetails)) : Prop :=
  Forall (fun r => 0 <= d_passed (snd r) /\ 0 <= d_failed (snd r)) rs.

(** A result object with no suites. *)
Definition sample_result (p f : Z) : agentDetails :=
  mkAgentDetails p f [("name", VStr "Suite")].

(** The diagnostic of the [dispatch] listener, line 219. *)
Definition no_browsers : effect :=
  ConsoleError (bad ++ " No browsers connected, exiting.").




(** Every property of an object satisfies [p]. *)
Definition all (p : value -> bool) (fields : list (string * value)) : bool :=
  forallb (fun entry => p (snd entry)) fields.



(** Effects that neither submit a batch nor draw the progress line. *)
Definition quiet_effect (e : effect) : bool :=
  match e with
  | StderrWrite _ | CreateBatch _ _ => false
  | _ => true
  end.

(** A trace without a batch and without a progress line. *)
Definition quiet (t : list effect) : bool := forallb quiet_effect t.

(** A batch is in preparation or under way. *)
Definition in_batch_run (p : phase) : bool :=
  match p with Idle | Serving => false | _ => true end.

(** What holds in every state of a run: the spinner index is in range; a
    batch is only prepared for a non-empty list of files; once the batch is
    submitted [total] is positive; before that, no batch has been created and
    no progress line drawn. *)
Record invariant (E : Env) (w : world) : Prop := mkInvariant {
  inv_spin : 0 <= spinIndex w <= 3;
  inv_files : in_batch_run (stage w) = true -> remain (options E) <> [];
  inv_total : stage w = Testing -> 1 <= total (batchDetails w);
  inv_quiet : stage w <> Testing -> quiet (trace w) = true
}.

(** [n] turns of [updateProgress] in a row. *)
Definition renders (E : Env) (n : nat) (w : world) : world :=
  Nat.iter n (fun w => world_of (updateProgress E w)) w.


(** What the listener of [setupProcess] prints for [err] when the error
    stream is no terminal. *)
Definition plain_report (E : Env) (err : string) : string :=
  join nl
    [ "Yeti v" ++ meta_version E ++ " " ++
        "(Node.js " ++ process_version E ++
        ") Error: " ++ err;
      "Report this bug at " ++ meta_bugs_url E ].

(** The errors of a refused connection and of a port in use. *)
Definition connection_refused : exn :=
  ThrowError (mkError "Error" "connect ECONNREFUSED" "ECONNREFUSED"
                      "Error: connect ECONNREFUSED").

Definition address_in_use : exn :=
  ThrowError (mkError "Error" "listen EADDRINUSE" "EADDRINUSE"
                      "Error: listen EADDRINUSE").

(** * Properties *)

(** ** The state after some output *)

Lemma log_nil (w : world) : log [] w = w.
Proof. destruct w; unfold log; simpl; now rewrite app_nil_r. Qed.

Lemma log_log (t1 t2 : list effect) (w : world) :
  log t2 (log t1 w) = log (t1 ++ t2)%list w.
Proof. unfold log; simpl; now rewrite app_assoc. Qed.

Lemma emit_log (e : effect) (w : world) : emit e w = log [e] w.
Proof. reflexivity. Qed.

Lemma prints_ret {A} (a : A) : prints (ret a).
Proof. intros w; exists []; simpl; now rewrite log_nil. Qed.

Lemma prints_throw {A} (e : exn) : prints (@throw A e).
Proof. intros w; exists []; simpl; now rewrite log_nil. Qed.

Lemma prints_perform (e : effect) : prints (perform e).
Proof. intros w; now exists [e]. Qed.

Lemma prints_error (args : list string) : prints (error args).
Proof. apply prints_perform. Qed.

Lemma prints_bind {A B} (m : M A) (k : A -> M B) :
  prints m -> (forall a, prints (k a)) -> prints (bind m k).
Proof.
  intros Hm Hk w. unfold bind.
  destruct (Hm w) as [t Ht].
  destruct (m w) as [a w' | e w' | c w']; simpl in Ht; subst w'.
  - destruct (Hk a (log t w)) as [t' Ht'].
    exists (t ++ t')%list. now rewrite Ht', log_log.
  - now exists t.
  - now exists t.
Qed.

Lemma prints_for_each {A S} (body : A -> S -> M S) (xs : list A) :
  (forall x, In x xs -> forall s, prints (body x s)) ->
  forall s, prints (for_each body xs s).
Proof.
  induction xs as [| x rest IH]; intros Hbody s; simpl.
  - apply prints_ret.
  - apply prints_bind.
    + apply Hbody; now left.
    + intros s'. apply IH. intros y Hy. apply Hbody; now right.
Qed.

(** Induction on values that reaches the properties of an object. *)
Lemma value_rect_fields (P : value -> Prop)
  (Hundef : P VUndef) (Hnull : P VNull)
  (Hbool : forall b, P (VBool b)) (Hnum : forall z, P (VNum z))
  (Hstr : forall s, P (VStr s))
  (Hobj : forall fields, Forall (fun e => P (snd e)) fields -> P (VObj fields)) :
  forall v, P v.
Proof.
  fix IH 1. intros [ | | b | z | s | fields].
  - exact Hundef.
  - exact Hnull.
  - apply Hbool.
  - apply Hnum.
  - apply Hstr.
  - apply Hobj. induction fields as [| [k v] rest IHrest]; constructor.
    + apply IH.
    + exact IHrest.
Qed.

Section Frames.
Variable E : Env.

Lemma prints_get_prop (v : value) (p : string) : prints (get_prop E v p).
Proof. destruct v; simpl; (apply prints_ret || apply prints_throw). Qed.

Lemma prints_hasResults (test o : value) : prints (hasResults E test o).
Proof. destruct test; simpl; (apply prints_ret || apply prints_throw). Qed.

Lemma prints_reportTestError k suite test last :
  prints (reportTestError E k suite test last).
Proof.
  unfold reportTestError.
  apply prints_bind; [apply prints_get_prop | intros result].
  destruct (strict_eq false (VStr "fail") result); [| apply prints_ret].
  apply prints_bind; [apply prints_get_prop | intros name].
  apply prints_bind.
  - destruct (_ || _); [| apply prints_ret].
    apply prints_bind; [apply prints_error | intros _; apply prints_ret].
  - intros last'.
    apply prints_bind; [apply prints_get_prop | intros message].
    destruct message; try apply prints_throw.
    apply prints_bind; [apply prints_get_prop | intros tname].
    apply prints_bind; [apply prints_error | intros _].
    apply prints_bind; [| intros _; apply prints_ret].
    apply prints_for_each. intros line _ []. apply prints_error.
Qed.

Lemma prints_walk k suite test o :
  forall last, prints (walk E k suite test o last).
Proof.
  induction o as [ | | b | z | s | fields IH] using value_rect_fields;
    intros last; simpl; try apply prints_ret.
  - apply prints_for_each. intros oi _ last'.
    apply prints_bind; [apply prints_hasResults | intros [|]].
    + apply prints_reportTestError.
    + apply prints_throw.
  - apply prints_for_each. intros [i oi] Hin last'.
    apply prints_bind; [apply prints_hasResults | intros [|]].
    + apply prints_reportTestError.
    + rewrite Forall_forall in IH. apply (IH (i, oi) Hin).
Qed.

Lemma prints_visit_test k suite entry last :
  prints (visit_test E k suite entry last).
Proof.
  destruct entry as [k1 test]; simpl.
  destruct (typeof_object test); [| apply prints_ret].
  apply prints_bind; [apply prints_hasResults | intros [|]].
  - apply prints_walk.
  - apply prints_reportTestError.
Qed.

Lemma prints_visit_suite entry last : prints (visit_suite E entry last).
Proof.
  destruct entry as [k suite]; simpl.
  destruct (typeof_object suite); [| apply prints_ret].
  apply prints_bind; [apply prints_get_prop | intros failed].
  destruct (truthy failed); [| apply prints_ret].
  destruct suite; try apply prints_ret.
  apply prints_for_each. intros entry _ last'. apply prints_visit_test.
Qed.

Lemma prints_displayVerboseResult result :
  prints (displayVerboseResult E result).
Proof.
  unfold displayVerboseResult.
  apply prints_bind; [| intros _; apply prints_error].
  apply prints_for_each. intros entry _ last. apply prints_visit_suite.
Qed.
End Frames.

(** ** The batch listeners *)

Ltac step_monad :=
  cbv [bind ret throw process_exit get modify perform error panic puts
       stderr_write now].

(** Unfolds the state updates down to the record and its fields. *)
Ltac world_simpl :=
  cbv [set_spinIndex set_beats set_batchDetails set_batch set_stage set_url
       set_hubErrorListener set_clientListeners emit tick log];
  cbn [world_of trace ticks url stage hubErrorListener clientListeners
       timeStart beats spinIndex batchDetails passed failed currentIndex total];
  rewrite <- ?app_assoc; cbn [app].

Lemma on_agentResult_counts (E : Env) agent d w :
  exists t, world_of (on_agentResult E agent d w) = log t (count_result d w).
Proof.
  unfold on_agentResult. step_monad.
  destruct (negb (d_failed d =? 0)).
  - match goal with
    | |- context [displayVerboseResult E ?r ?w'] =>
        destruct (prints_displayVerboseResult E r w') as [t Ht];
        destruct (displayVerboseResult E r w') as [a w1 | e w1 | c w1];
        simpl in Ht; subst w1; simpl world_of
    end; eexists; rewrite emit_log, log_log; reflexivity.
  - exists []. simpl world_of. now rewrite log_nil.
Qed.

Lemma updateProgress_eq (E : Env) (w : world) :
  updateProgress E w =
  Ret tt (set_spinIndex (next_spinIndex (spinIndex w))
            (log (progress_writes E w) (tick w))).
Proof.
  unfold updateProgress, next_spinIndex. step_monad.
  cbn [spinIndex set_spinIndex set_batch emit tick].
  change (Z.of_nat (List.length spin) - 1) with 3.
  destruct (spinIndex w + 1 >? 3); unfold progress_writes; world_simpl;
    reflexivity.
Qed.

(** Every batch listener leaves the variables of [runBatch] alone. *)
Lemma batch_listener_stage (E : Env) ev w :
  stage (world_of (batch_listener E ev w)) = stage w.
Proof.
  destruct ev as [agent d | agent d | agent m | agent | agent | agent | agents | ];
    simpl batch_listener.
  - destruct (on_agentResult_counts E agent d w) as [t ->]. reflexivity.
  - reflexivity.
  - reflexivity.
  - reflexivity.
  - unfold on_agentProgress. now rewrite updateProgress_eq.
  - unfold on_agentBeat, bind, modify. now rewrite updateProgress_eq.
  - unfold on_dispatch. step_monad. destruct (List.length agents =? 0)%nat; reflexivity.
  - unfold on_complete, bind. rewrite updateProgress_eq. step_monad.
    match goal with |- context [if ?b then _ else _] => destruct b end; reflexivity.
Qed.

Lemma run_Terminated (E : Env) evs code w :
  run E evs (Terminated code w) = Terminated code w.
Proof. induction evs; simpl; auto. Qed.

Lemma uncaughtException_eq (E : Env) err w :
  exists text, uncaughtException E err w = Exited 1 (log [ConsoleError text] w).
Proof. unfold uncaughtException. step_monad. eexists. reflexivity. Qed.

(** A turn of the loop that leaves the process running ran its callback to
    the end. *)
Lemma run_callback_Running (E : Env) m w w' :
  run_callback E m w = Running w' -> m w = Ret tt w'.
Proof.
  unfold run_callback. destruct (m w) as [[] w1 | e w1 | c w1].
  - now intros [= ->].
  - destruct (uncaughtException_eq E e w1) as [text ->]. discriminate.
  - discriminate.
Qed.

Lemma deliver_Batch (E : Env) ev w :
  stage w = Testing ->
  deliver E (Running w) (Batch ev) = run_callback E (batch_listener E ev) w.
Proof.
  intros H. unfold deliver, run_callback, listener, bind, get. now rewrite H.
Qed.

(** While the process runs, its state is the one the listeners computed. *)
Lemma run_Batch_Running (E : Env) evs :
  forall w w', stage w = Testing ->
    run E (map Batch evs) (Running w) = Running w' ->
    w' = apply_listeners E evs w.
Proof.
  induction evs as [| ev evs IH]; intros w w' Hst Hrun.
  - now injection Hrun as <-.
  - change (run E (map Batch (ev :: evs)) (Running w))
      with (run E (map Batch evs) (deliver E (Running w) (Batch ev))) in Hrun.
    rewrite (deliver_Batch E ev w Hst) in Hrun.
    destruct (run_callback E (batch_listener E ev) w) as [w1 | c w1] eqn:Hcb.
    + apply run_callback_Running in Hcb.
      change (apply_listeners E (ev :: evs) w)
        with (apply_listeners E evs (world_of (batch_listener E ev w))).
      rewrite Hcb. simpl world_of.
      apply IH; [| exact Hrun].
      rewrite <- (batch_listener_stage E ev w) in Hst.
      now rewrite Hcb in Hst.
    + rewrite run_Terminated in Hrun. discriminate.
Qed.

(** *** Results add up, in any order *)

Lemma sum_of_Permutation f rs rs' :
  Permutation rs rs' -> sum_of f rs = sum_of f rs'.
Proof.
  induction 1 as [| r l l' _ IH | r r' l | l l' l'' _ IH1 _ IH2]; simpl.
  - reflexivity.
  - now rewrite IH.
  - lia.
  - now rewrite IH1.
Qed.

Lemma sum_of_nonneg f rs :
  Forall (fun r => 0 <= f (snd r)) rs -> 0 <= sum_of f rs.
Proof.
  induction 1 as [| r l Hr _ IH]; simpl; lia.
Qed.

(** Up to [2^53] the sum of two non-negative integers is not rounded. *)
Lemma js_add_exact (a b : Z) :
  0 <= a -> 0 <= b -> a + b <= 2 ^ 53 -> js_add a b = a + b.
Proof.
  intros Ha Hb Hsum. unfold js_add. cbv zeta.
  rewrite Z.abs_eq by lia.
  destruct (Z.leb_spec (a + b) (2 ^ 53)); [reflexivity | lia].
Qed.

Lemma apply_agentResults (E : Env) rs :
  forall w,
    non_negative rs ->
    0 <= passed (batchDetails w) -> 0 <= failed (batchDetails w) ->
    passed (batchDetails w) + sum_of d_passed rs <= 2 ^ 53 ->
    failed (batchDetails w) + sum_of d_failed rs <= 2 ^ 53 ->
    let w' := apply_listeners E (agentResults rs) w in
    passed (batchDetails w') = passed (batchDetails w) + sum_of d_passed rs /\
    failed (batchDetails w') = failed (batchDetails w) + sum_of d_failed rs /\
    total (batchDetails w') = total (batchDetails w).
Proof.
  induction rs as [| [agent d] rs IH]; intros w Hrs Hp0 Hf0 Hp Hf.
  - simpl. repeat split; lia.
  - change (apply_listeners E (agentResults ((agent, d) :: rs)) w)
      with (apply_listeners E (agentResults rs)
              (world_of (on_agentResult E agent d w))).
    destruct (on_agentResult_counts E agent d w) as [t ->].
    inversion Hrs as [| r l [Hdp Hdf] Hrest]; subst. cbn [snd] in Hdp, Hdf.
    assert (Hsp : 0 <= sum_of d_passed rs).
    { apply sum_of_nonneg. eapply Forall_impl; [| exact Hrest].
      now intros r [H _]. }
    assert (Hsf : 0 <= sum_of d_failed rs).
    { apply sum_of_nonneg. eapply Forall_impl; [| exact Hrest].
      now intros r [_ H]. }
    unfold sum_of in Hp, Hf, Hsp, Hsf |- *.
    cbn [fold_right snd] in Hp, Hf |- *.
    assert (Hcp : passed (batchDetails (log t (count_result d w))) =
                  passed (batchDetails w) + d_passed d).
    { unfold count_result; world_simpl. apply js_add_exact; lia. }
    assert (Hcf : failed (batchDetails (log t (count_result d w))) =
                  failed (batchDetails w) + d_failed d).
    { unfold count_result; world_simpl. apply js_add_exact; lia. }
    assert (Hct : total (batchDetails (log t (count_result d w))) =
                  total (batchDetails w)) by reflexivity.
    specialize (IH (log t (count_result d w)) Hrest).
    cbv zeta in IH. rewrite Hcp, Hcf, Hct in IH.
    unfold sum_of in IH.
    destruct IH as (Hp' & Hf' & Ht'); [lia | lia | lia | lia |].
    cbv zeta. rewrite Hp', Hf', Ht'. repeat split; lia.
Qed.

Lemma submitBatch_eq (E : Env) tests w :
  submitBatch E tests w =
  Ret tt (set_stage Testing
            (set_batch (clock E (ticks w)) 0 0
               (mkDetails 0 0 0 (Z.of_nat (List.length tests)))
               (tick (log [CreateBatch (process_cwd E) tests] w)))).
Proof. reflexivity. Qed.

(** C1, within the range of exact sums.  Starting from a freshly submitted
    batch, the [agentResult] listener is applied to a sequence of results
    whose counts are non-negative and whose two sums do not exceed [2^53].
    Then [passed] is the sum of the passed counts and [failed] the sum of the
    failed counts, and the same holds for every reordering of the sequence;
    it is also the state of the process when it is still running after these
    events. *)
Theorem agentResult_sums_in_any_order
  (E : Env) (tests : list string) (w0 : world)
  (rs rs' : list (string * agentDetails)) :
  Permutation rs rs' ->
  non_negative rs ->
  sum_of d_passed rs <= 2 ^ 53 ->
  sum_of d_failed rs <= 2 ^ 53 ->
  let fresh := world_of (submitBatch E tests w0) in
  let w' := apply_listeners E (agentResults rs') fresh in
  passed (batchDetails w') = sum_of d_passed rs /\
  failed (batchDetails w') = sum_of d_failed rs /\
  forall w'',
    run E (map Batch (agentResults rs')) (Running fresh) = Running w'' ->
    passed (batchDetails w'') = sum_of d_passed rs /\
    failed (batchDetails w'') = sum_of d_failed rs.
Proof.
  intros Hperm Hrs Hbp Hbf fresh w'.
  assert (Hsum : passed (batchDetails w') = sum_of d_passed rs /\
                 failed (batchDetails w') = sum_of d_failed rs).
  { rewrite (sum_of_Permutation d_passed rs rs' Hperm) in Hbp |- *.
    rewrite (sum_of_Permutation d_failed rs rs' Hperm) in Hbf |- *.
    assert (Hrs' : non_negative rs')
      by exact (Permutation_Forall Hperm Hrs).
    destruct (apply_agentResults E rs' fresh Hrs') as (Hp & Hf & _);
      try (cbn; lia).
    fold w' in Hp, Hf. split; [rewrite Hp | rewrite Hf]; reflexivity. }
  destruct Hsum as [Hp Hf]. repeat split; trivial;
    apply run_Batch_Running in H; try reflexivity; subst w''; assumption.
Qed.

Lemma agentResult_sums_in_any_order_witness :
  let E := sample_env false (sample_options ["a.html"]) in
  let rs := [("Chrome", sample_result 2 1); ("Firefox", sample_result 3 0)] in
  let rs' := [("Firefox", sample_result 3 0); ("Chrome", sample_result 2 1)] in
  Permutation rs rs' /\
  non_negative rs /\
  sum_of d_passed rs <= 2 ^ 53 /\
  sum_of d_failed rs <= 2 ^ 53 /\
  passed (batchDetails
            (apply_listeners E (agentResults rs')
               (world_of (submitBatch E ["a.html"] initial_world)))) = 5.
Proof.
  intros E rs rs'.
  assert (Hrs : non_negative rs).
  { repeat constructor; cbn; lia. }
  assert (Hp : sum_of d_passed rs <= 2 ^ 53) by (cbn; lia).
  assert (Hf : sum_of d_failed rs <= 2 ^ 53) by (cbn; lia).
  split; [apply perm_swap |].
  split; [exact Hrs |]. split; [exact Hp |]. split; [exact Hf |].
  exact (proj1 (agentResult_sums_in_any_order E ["a.html"] initial_world
                  rs rs' (perm_swap _ _ _) Hrs Hp Hf)).
Defined.

(** C1 as it is stated fails beyond [2^53], where [+=] rounds.  Three agents
    report [2^53], 1 and 1 passed tests: in this order both additions of 1
    are rounded away and [passed] ends at [2^53]; with the large count last
    it ends at [2^53 + 2], the sum. *)
Lemma agentResult_sums_depend_on_order :
  let E := sample_env false (sample_options ["a.html"]) in
  let rs := [("Chrome", sample_result (2 ^ 53) 0);
             ("Firefox", sample_result 1 0); ("Safari", sample_result 1 0)] in
  let rs' := [("Firefox", sample_result 1 0); ("Safari", sample_result 1 0);
              ("Chrome", sample_result (2 ^ 53) 0)] in
  let fresh := world_of (submitBatch E ["a.html"] initial_world) in
  Permutation rs rs' /\
  non_negative rs /\
  sum_of d_passed rs = 9007199254740994 /\
  (exists w, run E (map Batch (agentResults rs)) (Running fresh) = Running w /\
             passed (batchDetails w) = 9007199254740992) /\
  (exists w, run E (map Batch (agentResults rs')) (Running fresh) = Running w /\
             passed (batchDetails w) = 9007199254740994) /\
  passed (batchDetails (apply_listeners E (agentResults rs) fresh))
    <> sum_of d_passed rs.
Proof.
  intros E rs rs' fresh.
  split.
  { apply perm_trans with
      (l' := [("Firefox", sample_result 1 0);
              ("Chrome", sample_result (2 ^ 53) 0);
              ("Safari", sample_result 1 0)]).
    - apply perm_swap.
    - apply perm_skip, perm_swap. }
  split; [repeat constructor; cbn; lia |].
  split; [reflexivity |].
  split; [eexists; split; vm_compute; reflexivity |].
  split; [eexists; split; vm_compute; reflexivity |].
  vm_compute. discriminate.
Qed.

(** *** The terminal event *)

(** C2.  The [complete] listener always ends the process: with status 0
    exactly when [failed] is 0 and with status 1 otherwise; in both cases it
    has redrawn the progress line and printed the tally, and the counters
    are as they were. *)
Theorem complete_exit_status (E : Env) (w : world) :
  let d := batchDetails w in
  let duration := clock E (S (ticks w)) - timeStart w in
  let durationString := "(" ++ string_of_Z duration ++ "ms)" in
  let tally :=
    if failed d =? 0
    then format [green E (string_of_Z (passed d + failed d) ++ " tests passed!");
                 durationString]
    else format [red E "Failures" ++ ":"; string_of_Z (failed d); "of";
                 string_of_Z (passed d + failed d); "tests failed.";
                 durationString] in
  exists code w',
    on_complete E w = Exited code w' /\
    exit_status (run_callback E (batch_listener E Complete) w) = Some code /\
    (code = 0 <-> failed d = 0) /\
    (failed d <> 0 -> code = 1) /\
    trace w' = (trace w ++ progress_writes E w ++ [ConsoleError tally])%list /\
    batchDetails w' = d.
Proof.
  intros d duration durationString tally.
  unfold run_callback, batch_listener.
  unfold on_complete, bind. rewrite updateProgress_eq. step_monad.
  subst tally durationString duration d. world_simpl.
  destruct (failed (batchDetails w) =? 0) eqn:Hf; cbn [negb].
  - apply Z.eqb_eq in Hf. exists 0; eexists.
    repeat split; trivial; try (world_simpl; reflexivity).
    intros; contradiction.
  - apply Z.eqb_neq in Hf. exists 1; eexists.
    repeat split; trivial; try (world_simpl; reflexivity);
      try discriminate.
    intros; contradiction.
Qed.

(** *** Dispatch *)

(** C3.  After [submitBatch], [total] is the number of test files; the
    [dispatch] listener with a non-empty list of agents runs to its end and
    multiplies [total] by the number of agents, once, so that right after
    submission it is [tests.length * N]. *)
Theorem dispatch_multiplies_total
  (E : Env) (tests agents : list string) (w0 w : world) :
  agents <> [] ->
  let fresh := world_of (submitBatch E tests w0) in
  total (batchDetails fresh) = Z.of_nat (List.length tests) /\
  (exists w', on_dispatch agents fresh = Ret tt w' /\
     total (batchDetails w') =
       Z.of_nat (List.length tests) * Z.of_nat (List.length agents)) /\
  (exists w', on_dispatch agents w = Ret tt w' /\
     total (batchDetails w') =
       total (batchDetails w) * Z.of_nat (List.length agents) /\
     passed (batchDetails w') = passed (batchDetails w) /\
     failed (batchDetails w') = failed (batchDetails w) /\
     currentIndex (batchDetails w') = currentIndex (batchDetails w)).
Proof.
  intros Hne fresh.
  assert (Hlen : (List.length agents =? 0)%nat = false).
  { destruct agents; [contradiction | reflexivity]. }
  split; [reflexivity |].
  split; unfold on_dispatch; step_monad; rewrite Hlen;
    eexists; (split; [reflexivity |]); world_simpl; auto.
Qed.

Lemma dispatch_multiplies_total_witness :
  let E := sample_env false (sample_options ["a.html"; "b.html"; "c.html"]) in
  ["Chrome"; "Firefox"] <> [] /\
  exists w',
    on_dispatch ["Chrome"; "Firefox"]
      (world_of (submitBatch E ["a.html"; "b.html"; "c.html"] initial_world))
    = Ret tt w' /\
    total (batchDetails w') = 6.
Proof.
  intros E. split.
  - discriminate.
  - exact (proj1 (proj2
      (dispatch_multiplies_total E ["a.html"; "b.html"; "c.html"]
         ["Chrome"; "Firefox"] initial_world initial_world
         ltac:(discriminate)))).
Defined.

(** C4.  The [dispatch] listener with an empty list of agents prints the
    "No browsers connected" diagnostic and ends the process with status 1
    without touching the counters; whatever events follow, [agentResult]
    included, nothing more is processed. *)
Theorem empty_dispatch_is_fatal (E : Env) (w : world) (evs : list event) :
  stage w = Testing ->
  on_dispatch [] w = Exited 1 (log [no_browsers] w) /\
  run E (Batch (Dispatch []) :: evs) (Running w)
    = Terminated 1 (log [no_browsers] w) /\
  batchDetails (log [no_browsers] w) = batchDetails w.
Proof.
  intros Hst. split; [reflexivity |]. split; [| reflexivity].
  change (run E (Batch (Dispatch []) :: evs) (Running w))
    with (run E evs (deliver E (Running w) (Batch (Dispatch [])))).
  rewrite (deliver_Batch E _ w Hst).
  apply run_Terminated.
Qed.

Lemma empty_dispatch_is_fatal_witness :
  let E := sample_env false (sample_options ["a.html"]) in
  let w := set_stage Testing initial_world in
  stage w = Testing /\
  run E [Batch (Dispatch []); Batch (AgentResult "Chrome" (sample_result 1 0))]
      (Running w)
    = Terminated 1 (log [no_browsers] w).
Proof.
  intros E w. split.
  - reflexivity.
  - exact (proj1 (proj2 (empty_dispatch_is_fatal E w
             [Batch (AgentResult "Chrome" (sample_result 1 0))] eq_refl))).
Defined.

(** *** Agent errors *)

(** C9.  The [agentScriptError] and [agentError] listeners run to their end
    and only print: the four counters, the heartbeat counter, the spinner and
    every other variable are left as they were, from any state. *)
Theorem agent_errors_leave_counters
  (E : Env) (agent : string) (d : scriptError) (message : value) (w : world) :
  (exists t, batch_listener E (AgentScriptError agent d) w = Ret tt (log t w)) /\
  (exists t, batch_listener E (AgentError agent message) w = Ret tt (log t w)) /\
  forall t,
    batchDetails (log t w) = batchDetails w /\ beats (log t w) = beats w /\
    spinIndex (log t w) = spinIndex w /\ timeStart (log t w) = timeStart w.
Proof.
  split; [| split].
  - simpl batch_listener. unfold on_agentScriptError. step_monad.
    rewrite !emit_log, !log_log. eexists; reflexivity.
  - simpl batch_listener. unfold on_agentError. step_monad.
    rewrite !emit_log, !log_log. eexists; reflexivity.
  - intros t. repeat split.
Qed.

(** Reads a field of an updated state; unlike [world_simpl] it only unfolds
    the updates on the way to the field. *)
Ltac field_simpl :=
  cbn [set_spinIndex set_beats set_batchDetails set_batch set_stage set_url
       set_hubErrorListener set_clientListeners emit tick log
       world_of trace ticks url stage hubErrorListener clientListeners
       timeStart beats spinIndex batchDetails passed failed currentIndex total].

(** ** The result tree walker *)




Lemma for_each_error {A} (args : A -> list string) (xs : list A) w :
  for_each (fun x (_ : unit) => error (args x)) xs tt w =
  Ret tt (log (map (fun x => ConsoleError (format (args x))) xs) w).
Proof.
  revert w. induction xs as [| x xs IH]; intros w; simpl.
  - now rewrite log_nil.
  - unfold bind, error at 1, perform, modify.
    rewrite IH, emit_log, log_log. reflexivity.
Qed.


Section Walker.
Variable E : Env.







End Walker.




(** ** What holds in every state of a run *)

Lemma quiet_errors {A} (f : A -> string) (xs : list A) :
  quiet (map (fun x => ConsoleError (f x)) xs) = true.
Proof. induction xs; simpl; auto. Qed.

Lemma invariant_log (E : Env) t w :
  quiet t = true -> invariant E w -> invariant E (log t w).
Proof.
  intros Ht [Hspin Hfiles Htotal Hquiet]. constructor; auto.
  intros Hst. cbn [log trace]. unfold quiet. rewrite forallb_app.
  apply andb_true_iff. split; [apply Hquiet; exact Hst | exact Ht].
Qed.

Lemma next_spinIndex_range i : 0 <= i <= 3 -> 0 <= next_spinIndex i <= 3.
Proof. unfold next_spinIndex. destruct (i + 1 >? 3) eqn:H; lia. Qed.

Lemma batch_listener_spinIndex (E : Env) ev w :
  0 <= spinIndex w <= 3 ->
  0 <= spinIndex (world_of (batch_listener E ev w)) <= 3.
Proof.
  intros Hspin.
  destruct ev as [agent d | agent d | agent m | agent | agent | agent | agents | ];
    simpl batch_listener.
  - destruct (on_agentResult_counts E agent d w) as [t ->]. exact Hspin.
  - exact Hspin.
  - exact Hspin.
  - exact Hspin.
  - unfold on_agentProgress. rewrite updateProgress_eq.
    apply next_spinIndex_range, Hspin.
  - unfold on_agentBeat, bind, modify. rewrite updateProgress_eq.
    apply next_spinIndex_range, Hspin.
  - unfold on_dispatch. step_monad.
    destruct (List.length agents =? 0)%nat; exact Hspin.
  - unfold on_complete, bind. rewrite updateProgress_eq. step_monad.
    match goal with |- context [if ?b then _ else _] => destruct b end;
      apply next_spinIndex_range, Hspin.
Qed.

Lemma batch_listener_total (E : Env) ev w :
  1 <= total (batchDetails w) ->
  1 <= total (batchDetails (world_of (batch_listener E ev w))).
Proof.
  intros Htotal.
  destruct ev as [agent d | agent d | agent m | agent | agent | agent | agents | ];
    simpl batch_listener.
  - destruct (on_agentResult_counts E agent d w) as [t ->]. exact Htotal.
  - exact Htotal.
  - exact Htotal.
  - exact Htotal.
  - unfold on_agentProgress. rewrite updateProgress_eq. exact Htotal.
  - unfold on_agentBeat, bind, modify. rewrite updateProgress_eq. exact Htotal.
  - unfold on_dispatch. step_monad.
    destruct agents as [| a agents]; [exact Htotal |].
    cbn [List.length Nat.eqb]. rewrite Nat2Z.inj_succ. world_simpl.
    pose proof (Nat2Z.is_nonneg (List.length agents)). nia.
  - unfold on_complete, bind. rewrite updateProgress_eq. step_monad.
    match goal with |- context [if ?b then _ else _] => destruct b end;
      exact Htotal.
Qed.

(** The batch listeners keep the invariant. *)
Lemma batch_listener_invariant (E : Env) ev w :
  stage w = Testing -> invariant E w ->
  invariant E (world_of (batch_listener E ev w)).
Proof.
  intros Hst [Hspin Hfiles Htotal Hquiet].
  constructor; rewrite ?batch_listener_stage.
  - apply batch_listener_spinIndex, Hspin.
  - exact Hfiles.
  - intros _. apply batch_listener_total, Htotal, Hst.
  - congruence.
Qed.

Lemma run_callback_invariant (E : Env) (m : M unit) w :
  invariant E (world_of (m w)) -> invariant E (state_of (run_callback E m w)).
Proof.
  unfold run_callback. destruct (m w) as [[] w1 | e w1 | c w1]; auto.
  intros Hinv. destruct (uncaughtException_eq E e w1) as [text ->].
  now apply invariant_log.
Qed.

Lemma invariant_set_hubErrorListener (E : Env) b w :
  invariant E w -> invariant E (set_hubErrorListener b w).
Proof. intros [Hspin Hfiles Htotal Hquiet]. constructor; assumption. Qed.

Lemma prepareTests_invariant (E : Env) w :
  in_batch_run (stage w) = true -> stage w <> Testing ->
  invariant E w -> invariant E (world_of (prepareTests w)).
Proof.
  intros Hrun Hst [Hspin Hfiles Htotal Hquiet].
  unfold prepareTests. step_monad.
  constructor; field_simpl.
  - exact Hspin.
  - intros _. exact (Hfiles Hrun).
  - discriminate.
  - intros _. unfold quiet. rewrite !forallb_app. fold (quiet (trace w)).
    now rewrite Hquiet.
Qed.

Lemma createHub_invariant (E : Env) w :
  in_batch_run (stage w) = true -> stage w <> Testing ->
  invariant E w -> invariant E (world_of (createHub E w)).
Proof.
  intros Hrun Hst [Hspin Hfiles Htotal Hquiet].
  unfold createHub. step_monad.
  constructor; field_simpl.
  - exact Hspin.
  - intros _. exact (Hfiles Hrun).
  - discriminate.
  - intros _. unfold quiet. rewrite !forallb_app. fold (quiet (trace w)).
    now rewrite Hquiet.
Qed.

Lemma submitBatch_invariant (E : Env) w :
  in_batch_run (stage w) = true ->
  invariant E w -> invariant E (world_of (submitBatch E (files E) w)).
Proof.
  intros Hrun [Hspin Hfiles Htotal Hquiet].
  rewrite submitBatch_eq.
  constructor; field_simpl.
  - lia.
  - intros _. exact (Hfiles Hrun).
  - intros _. specialize (Hfiles Hrun). unfold files.
    destruct (remain (options E)); [contradiction |].
    cbn [List.length]. lia.
  - congruence.
Qed.

Lemma listener_invariant (E : Env) ev w :
  invariant E w -> invariant E (world_of (listener E ev w)).
Proof.
  intros Hinv.
  unfold listener, bind at 1, get.
  destruct ev as [err | err | | err agents | agent | agent | | ev];
    destruct (stage w) eqn:Hst; try exact Hinv.
  all: try (destruct (hubErrorListener w); [| exact Hinv]).
  all: try (destruct (clientListeners w); [| exact Hinv]).
  all: try (apply batch_listener_invariant; assumption).
  all: try (apply (invariant_log E [ConsoleError _] w); [reflexivity | exact Hinv]).
  all: try exact (invariant_set_hubErrorListener E false w Hinv).
  - (* the callback of connectToURL *)
    unfold connectToURL_connected.
    destruct (err_given err) as [e |].
    + destruct (hub_given (options E)).
      * unfold bind at 1, error, perform, modify. rewrite emit_log.
        apply createHub_invariant;
          [ cbn [log stage]; now rewrite Hst
          | cbn [log stage]; rewrite Hst; discriminate
          | now apply invariant_log ].
      * unfold bind at 1, ret.
        apply createHub_invariant;
          [ now rewrite Hst | rewrite Hst; discriminate | exact Hinv ].
    + unfold bind at 1, error, perform, modify. rewrite emit_log.
      apply prepareTests_invariant;
        [ cbn [log stage]; now rewrite Hst
        | cbn [log stage]; rewrite Hst; discriminate
        | now apply invariant_log ].
  - (* the callback of createHub *)
    unfold createHub_connected.
    destruct (err_given err) as [e |]; [exact Hinv |].
    apply prepareTests_invariant;
      [ now rewrite Hst | rewrite Hst; discriminate | exact Hinv ].
  - (* the hub fails under startServer *)
    unfold startServer_on_error. destruct (is_EADDRINUSE err).
    + step_monad. rewrite emit_log. apply invariant_log; [reflexivity |].
      exact (invariant_set_hubErrorListener E false w Hinv).
    + exact (invariant_set_hubErrorListener E false w Hinv).
  - (* the callback of getAgents *)
    unfold getAgents_callback.
    destruct (err_given err) as [e |]; [exact Hinv |].
    unfold bind at 1, on_agentConnect.
    rewrite (for_each_error (fun agent => ["  Agent connected:"; agent])).
    assert (Hlog : invariant E
              (log (map (fun x => ConsoleError
                                    (format ["  Agent connected:"; x])) agents) w)).
    { apply invariant_log; [apply quiet_errors | exact Hinv]. }
    destruct (0 <? List.length agents)%nat.
    + apply submitBatch_invariant; [cbn [log stage]; now rewrite Hst | exact Hlog].
    + destruct (isTTY E); cbn [negb]; unfold bind at 1.
      * destruct Hlog as [Hspin Hfiles Htotal Hquiet].
        step_monad. world_simpl.
        constructor; cbn [stage spinIndex trace]; auto.
        -- intros _. apply Hfiles. cbn [log stage]. now rewrite Hst.
        -- discriminate.
        -- intros _. cbn [log trace stage] in Hquiet.
           unfold quiet in *. rewrite app_assoc, forallb_app.
           rewrite Hquiet by (rewrite Hst; discriminate). reflexivity.
      * exact Hlog.
  - (* the answer to the question *)
    unfold question_callback, bind at 1, perform, modify.
    apply submitBatch_invariant; [cbn [emit stage]; now rewrite Hst |].
    rewrite emit_log. now apply invariant_log.
Qed.

Lemma route_invariant (E : Env) : invariant E (world_of (route E initial_world)).
Proof.
  unfold route.
  destruct (remain (options E)) as [| f fs] eqn:Hfiles; cbn [List.length Nat.eqb negb].
  - destruct (server (options E)).
    + unfold startServer. step_monad. world_simpl.
      constructor; cbn; (lia || discriminate || reflexivity).
    + destruct (_ || _); [| destruct (help (options E))];
        step_monad; world_simpl;
        constructor; cbn; (lia || discriminate || reflexivity).
  - unfold runBatch, connectToURL.
    destruct (server (options E)); step_monad; world_simpl;
      constructor; cbn; try (lia || discriminate || reflexivity);
      intros _; rewrite Hfiles; discriminate.
Qed.

(** The invariant holds in every state a run goes through. *)
Lemma run_invariant (E : Env) (evs : list event) :
  invariant E (state_of (run E evs (start E))).
Proof.
  assert (Hgen : forall p, invariant E (state_of p) ->
                           invariant E (state_of (run E evs p))).
  { induction evs as [| ev evs IH]; intros p Hp; [exact Hp |].
    apply IH. destruct p as [w | c w]; [| exact Hp].
    apply run_callback_invariant, listener_invariant, Hp. }
  apply Hgen. apply run_callback_invariant, route_invariant.
Qed.

(** ** The progress line *)

Lemma array_get_spin (n : nat) :
  array_get spin (Z.of_nat n mod 4) = nth (n mod 4) spin "".
Proof.
  change 4 with (Z.of_nat 4). rewrite <- Nat2Z.inj_mod.
  pose proof (Nat.mod_upper_bound n 4 ltac:(discriminate)) as Hlt.
  destruct (n mod 4)%nat as [| [| [| [| k]]]]; try reflexivity; lia.
Qed.

Lemma next_spinIndex_mod (n : nat) :
  next_spinIndex (Z.of_nat n mod 4) = Z.of_nat (S n) mod 4.
Proof.
  unfold next_spinIndex. rewrite Nat2Z.inj_succ.
  destruct (Z.of_nat n mod 4 + 1 >? 3) eqn:H;
    rewrite Z.gtb_ltb in H;
    [apply Z.ltb_lt in H | apply Z.ltb_ge in H];
    Z.div_mod_to_equations; lia.
Qed.

Lemma renders_spinIndex (E : Env) (n : nat) (w : world) :
  spinIndex w = 0 -> spinIndex (renders E n w) = Z.of_nat n mod 4.
Proof.
  intros H0. induction n as [| n IH].
  - exact H0.
  - change (renders E (S n) w)
      with (world_of (updateProgress E (renders E n w))).
    rewrite updateProgress_eq. cbn [world_of set_spinIndex set_batch spinIndex].
    rewrite IH. apply next_spinIndex_mod.
Qed.

(** C10.  [spinIndex] is 0 when the batch is submitted; in every state of a
    run it is one of 0, 1, 2, 3, so the glyph of the next turn is one of the
    four frames, and it is again in that range after the turn; the n-th turn
    after submission (counting from 0) writes a line whose glyph, after
    [Testing... ], is frame [n mod 4] of [/ | \ -], and leaves the index at
    [(n + 1) mod 4]. *)
Theorem spinner_cycles
  (E : Env) (tests : list string) (w0 : world) (evs : list event) (n : nat) :
  let fresh := world_of (submitBatch E tests w0) in
  let reached := state_of (run E evs (start E)) in
  let before := renders E n fresh in
  spinIndex fresh = 0 /\
  (0 <= spinIndex reached <= 3 /\
   In (array_get spin (spinIndex reached)) spin /\
   0 <= spinIndex (world_of (updateProgress E reached)) <= 3) /\
  (spinIndex before = Z.of_nat n mod 4 /\
   array_get spin (spinIndex before) = nth (n mod 4) ["/"; "|"; "\"; "-"] "" /\
   exists after,
     updateProgress E before = Ret tt after /\
     spinIndex after = Z.of_nat (S n) mod 4 /\
     trace after =
       (trace before ++
        [StderrWrite erase_line;
         StderrWrite
           ("Testing... " ++ nth (n mod 4) ["/"; "|"; "\"; "-"] "" ++ " " ++
            toFixed (percent_of (currentIndex (batchDetails before))
                                (total (batchDetails before))) 0 ++
            "% complete (" ++ string_of_Z (currentIndex (batchDetails before)) ++
            "/" ++ string_of_Z (total (batchDetails before)) ++ ") " ++
            toFixed (tps_of (beats before) (clock E (ticks before))
                            (timeStart before)) 2 ++
            " tests/sec ")%string])%list).
Proof.
  intros fresh reached before.
  assert (Hbefore : spinIndex before = Z.of_nat n mod 4)
    by (apply renders_spinIndex; reflexivity).
  split; [reflexivity |]. split.
  - destruct (run_invariant E evs) as [Hspin _ _ _]. fold reached in Hspin.
    repeat split; try apply Hspin.
    + assert (Hcases : spinIndex reached = 0 \/ spinIndex reached = 1 \/
                       spinIndex reached = 2 \/ spinIndex reached = 3) by lia.
      destruct Hcases as [-> | [-> | [-> | ->]]]; simpl; auto.
    + rewrite updateProgress_eq. apply next_spinIndex_range, Hspin.
    + rewrite updateProgress_eq. apply next_spinIndex_range, Hspin.
  - split; [exact Hbefore |]. split.
    + rewrite Hbefore. apply array_get_spin.
    + rewrite updateProgress_eq. eexists. split; [reflexivity |]. split.
      * cbn [set_spinIndex set_batch spinIndex]. rewrite Hbefore.
        apply next_spinIndex_mod.
      * cbn [set_spinIndex set_batch log tick trace].
        unfold progress_writes, progress_line.
        rewrite Hbefore, array_get_spin. reflexivity.
Qed.




(** The figures are those of binary64 arithmetic: [23 / 40 * 100] is just
    below 57.5, and three beats in 200 seconds are just below 0.015 a
    second. *)
Lemma figures_round_as_binary64 :
  toFixed (percent_of 23 40) 0 = "57" /\
  toFixed (percent_of 1 3) 0 = "33" /\
  toFixed (tps_of 3 200000 0) 2 = "0.01".
Proof. repeat split; vm_compute; reflexivity. Qed.



(** ** Waiting for agents *)

Lemma run_app (E : Env) (evs evs' : list event) (p : process) :
  run E (evs ++ evs') p = run E evs' (run E evs p).
Proof. apply fold_left_app. Qed.

Lemma quiet_In (t : list effect) (e : effect) :
  quiet t = true -> In e t -> quiet_effect e = true.
Proof. unfold quiet. rewrite forallb_forall. auto. Qed.

(** C7.  The agents are asked for ([Preparing]); the answer is an empty
    list and the error stream is no terminal.  The callback throws, the
    listener of [setupProcess] prints its report of the error and the process
    ends with status 1, whatever events follow.  No batch has been created
    and nothing has been written for the progress line, before or after. *)
Theorem no_agents_without_terminal
  (E : Env) (before after : list event) (w : world) :
  isTTY E = false ->
  run E before (start E) = Running w ->
  stage w = Preparing ->
  let report :=
    plain_report E "Unable to connect to Hub or start an interactive session." in
  let final := run E (before ++ Agents None [] :: after) (start E) in
  final = Terminated 1 (log [ConsoleError report] w) /\
  (forall basedir tests, ~ In (CreateBatch basedir tests) (trace (state_of final))) /\
  (forall chunk, ~ In (StderrWrite chunk) (trace (state_of final))).
Proof.
  intros Htty Hrun Hst report final.
  assert (Hfinal : final = Terminated 1 (log [ConsoleError report] w)).
  { unfold final. rewrite run_app, Hrun.
    change (run E (Agents None [] :: after) (Running w))
      with (run E after (deliver E (Running w) (Agents None []))).
    unfold deliver, run_callback, listener, bind at 1, get. rewrite Hst.
    unfold getAgents_callback. cbn [err_given for_each List.length Nat.ltb Nat.leb].
    rewrite Htty. cbn [negb]. step_monad.
    unfold uncaughtException. rewrite Htty. step_monad.
    apply run_Terminated. }
  split; [exact Hfinal |].
  assert (Hquiet : quiet (trace (state_of final)) = true).
  { destruct (run_invariant E (before ++ Agents None [] :: after))
      as [_ _ _ Hq].
    apply Hq. fold final. rewrite Hfinal. cbn [state_of log stage].
    rewrite Hst. discriminate. }
  split; intros; intros Hin; apply (quiet_In _ _ Hquiet) in Hin; discriminate.
Qed.

Lemma no_agents_without_terminal_witness :
  let E := sample_env false (sample_options ["a.html"]) in
  let w := state_of (run E [Connected None] (start E)) in
  isTTY E = false /\
  run E [Connected None] (start E) = Running w /\
  stage w = Preparing /\
  exit_status (run E ([Connected None] ++ Agents None [] :: [Enter]) (start E))
    = Some 1.
Proof.
  intros E w.
  split; [reflexivity |]. split; [reflexivity |]. split; [reflexivity |].
  rewrite (proj1 (no_agents_without_terminal E [Connected None] [Enter] w
                    eq_refl eq_refl eq_refl)).
  reflexivity.
Defined.

(** ** The hub fails to bind *)

(** Under [createHub] every error of the hub, a port in use included, is
    thrown again and reaches the listener of [setupProcess]: the report is
    the generic one, built from the error alone. *)
Lemma createHub_hub_error (E : Env) (err : exn) (w : world) :
  stage w <> Serving -> hubErrorListener w = true ->
  exists text,
    deliver E (Running w) (HubError err)
    = Terminated 1 (log [ConsoleError text] (set_hubErrorListener false w)) /\
    uncaughtException E err (set_hubErrorListener false w)
    = Exited 1 (log [ConsoleError text] (set_hubErrorListener false w)).
Proof.
  intros Hst Harmed.
  destruct (uncaughtException_eq E err (set_hubErrorListener false w))
    as [text Htext].
  exists text. split; [| exact Htext].
  unfold deliver, run_callback, listener, bind at 1, get. rewrite Harmed.
  destruct (stage w); try contradiction;
    unfold createHub_on_error; step_monad;
    fold (set_hubErrorListener false w); now rewrite Htext.
Qed.

(** C6, at a failing input.  No hub answers on the default address and the
    port of the fallback hub is taken.  [createHub] has asked the new client
    to connect before the hub reports anything; the hub's error is then
    thrown as it is, and the last line printed is the generic report, which
    does not come from the message of [startServer] and names no port.
    [startServer] on the same error prints the message with the port. *)
Theorem createHub_port_in_use_report :
  let E := sample_env false (sample_options ["a.html"]) in
  let S := sample_env false
             (mkOptions "yeti" [] ["--server"] true false false None None None false) in
  run E [Connected (Some connection_refused); HubError address_in_use] (start E)
  = Terminated 1
      (mkWorld
         [CreateClient "http://localhost:9000";
          ClientConnect "http://localhost:9000";
          ConsoleError "Creating a Hub at http://localhost:9000";
          HubListen 9000;
          CreateClient "http://localhost:9000";
          ClientConnect "http://localhost:9000";
          ConsoleError
            (plain_report E "Error: listen EADDRINUSE")]
         0 "http://localhost:9000" ConnectingToLocalHub false false
         0 0 0 (mkDetails 0 0 0 0)) /\
  plain_report E "Error: listen EADDRINUSE"
  = "Yeti v0.2.0 (Node.js v0.6.0) Error: Error: listen EADDRINUSE" ++ nl ++
    "Report this bug at http://yuilibrary.com/projects/yeti/newticket" /\
  run S [HubError address_in_use] (start S)
  = Terminated 1
      (mkWorld
         [HubListen 9000;
          ConsoleError "Unable to start the Hub because port 9000 is in use."]
         0 "" Serving false false 0 0 0 (mkDetails 0 0 0 0)).
Proof.
  repeat split; vm_compute; reflexivity.
Qed.
